(** * Knowledge Hub content engine: a model of [content-engine/generator.py]

    The script is a linear batch job: it loads text blocks and a CSV table
    of pending keyword rows, samples a batch, assembles and writes one
    Markdown post per row, and finally moves the processed rows from the
    pending table to the processed table.

    The model follows the script function by function.  Python values are
    embedded as follows.

    - [str] is [string]; characters are 8-bit, and the case operations
      ([lower], [title]) act on the ASCII letters only.
    - A row produced by [csv.DictReader] is a finite map from keys to
      values ([row]); the key [None] is the reader's [restkey].
    - The file system, the random source, the clock and the standard output
      are fields of an explicit [world] threaded through every function;
      exceptions are the [Raise] results of a state-and-error monad. *)

From Stdlib Require Import Ascii String DecimalString.
From stdpp Require Import base option list gmap strings.

Local Open Scope string_scope.
Local Open Scope nat_scope.
Local Open Scope list_scope.
Local Open Scope stdpp_scope.

(** ** Python's [str] methods used by the script *)

Module Py.

Definition is_upper (c : ascii) : bool :=
  let n := nat_of_ascii c in ((65 <=? n) && (n <=? 90))%nat.

Definition is_lower (c : ascii) : bool :=
  let n := nat_of_ascii c in ((97 <=? n) && (n <=? 122))%nat.

Definition lower_char (c : ascii) : ascii :=
  if is_upper c then ascii_of_nat (nat_of_ascii c + 32) else c.

Definition upper_char (c : ascii) : ascii :=
  if is_lower c then ascii_of_nat (nat_of_ascii c - 32) else c.

(** [s.lower()] *)
Fixpoint lower (s : string) : string :=
  match s with
  | "" => ""
  | String c s' => String (lower_char c) (lower s')
  end.

(** [s.title()]: a letter that follows a letter is lower-cased, any other
    letter is upper-cased. *)
Fixpoint title_go (previous_is_cased : bool) (s : string) : string :=
  match s with
  | "" => ""
  | String c s' =>
      String (if previous_is_cased then lower_char c else upper_char c)
             (title_go (is_upper c || is_lower c) s')
  end.

Definition title (s : string) : string := title_go false s.

(** [s[:n]] *)
Fixpoint slice_to (n : nat) (s : string) : string :=
  match n, s with
  | S k, String c s' => String c (slice_to k s')
  | _, _ => ""
  end.


(** [s.replace(old, new)]: the occurrences of [old] are replaced from left
    to right without overlap.  [skip] counts the characters of a matched
    occurrence that are still to be passed over. *)
Fixpoint replace_go (old new : string) (skip : nat) (s : string) : string :=
  match s with
  | "" => ""
  | String c s' =>
      match skip with
      | S k => replace_go old new k s'
      | O =>
          if String.prefix old s
          then new +:+ replace_go old new (String.length old - 1) s'
          else String c (replace_go old new 0 s')
      end
  end.

(** With an empty [old], Python puts [new] before every character and at
    the end. *)
Fixpoint intersperse (new s : string) : string :=
  match s with
  | "" => new
  | String c s' => new +:+ String c (intersperse new s')
  end.

Definition replace (old new s : string) : string :=
  match old with
  | "" => intersperse new s
  | _ => replace_go old new 0 s
  end.

(** [sub in s] *)
Fixpoint contains (sub s : string) : bool :=
  String.prefix sub s ||
  match s with
  | "" => false
  | String _ s' => contains sub s'
  end.

(** Whitespace as [str.strip] and [str.splitlines] see it (ASCII). *)
Definition is_space (c : ascii) : bool :=
  let n := nat_of_ascii c in
  (((9 <=? n) && (n <=? 13)) || ((28 <=? n) && (n <=? 32)))%nat.

Fixpoint lstrip (s : string) : string :=
  match s with
  | "" => ""
  | String c s' => if is_space c then lstrip s' else s
  end.

Fixpoint rstrip (s : string) : string :=
  match s with
  | "" => ""
  | String c s' =>
      match rstrip s' with
      | "" => if is_space c then "" else String c ""
      | t => String c t
      end
  end.

(** [s.strip()] *)
Definition strip (s : string) : string := rstrip (lstrip s).

(** [sep.join(parts)] *)
Definition join (sep : string) (parts : list string) : string :=
  String.concat sep parts.

(** [str(n)] for a non-negative integer *)
Definition str_of_nat (n : nat) : string :=
  NilEmpty.string_of_uint (Nat.to_uint n).

End Py.

Definition nl : string := String "010"%char "".
Definition dq : string := String "034"%char "".
Definition backslash : string := String "092"%char "".


(** ** Exceptions, events and the world *)

Inductive exn :=
| IndexError | TypeError | AttributeError | KeyError | ValueError
| OSError | UnicodeDecodeError | SystemExit (code : nat).

(** [str(e)], as the messages of the interpreter read. *)
Definition str_exn (e : exn) : string :=
  match e with
  | IndexError => "Cannot choose from an empty sequence"
  | TypeError => "replace() argument 2 must be str, not None"
  | AttributeError => "'NoneType' object has no attribute 'lower'"
  | KeyError => "'keyword'"
  | ValueError => "dict contains fields not in fieldnames"
  | OSError => "[Errno 13] Permission denied"
  | UnicodeDecodeError => "'utf-8' codec can't decode byte"
  | SystemExit n => Py.str_of_nat n
  end.

Global Instance exn_eq_dec : EqDecision exn.
Proof. solve_decision. Defined.

Inductive result (A : Type) :=
| Ok (a : A)
| Raise (e : exn).
Arguments Ok {A} a.
Arguments Raise {A} e.

Global Instance result_eq_dec {A} `{EqDecision A} : EqDecision (result A).
Proof. solve_decision. Defined.

(** [r] is a normal return. *)
Definition is_Ok {A} (r : result A) : bool :=
  match r with Ok _ => true | Raise _ => false end.

(** What the script does to its surroundings, besides the files. *)
Inductive event :=
| Print (line : string)
| Sleep (seconds : nat)
| System (command : string)
| OpenW (path : string)
| Remove (path : string).

Global Instance event_eq_dec : EqDecision event.
Proof. solve_decision. Defined.

(** A value stored in a [csv.DictReader] row: a cell, the [restval] [None]
    of a short row, or the list of surplus cells of a long row. *)
Inductive value :=
| VStr (s : string)
| VNone
| VRest (cells : list string).

Global Instance value_eq_dec : EqDecision value.
Proof. solve_decision. Defined.

(** A row is a [dict]; the key [None] is the reader's [restkey].  Equality
    of rows is equality of maps, as [==] on dicts. *)
Abbreviation row := (gmap (option string) value).

(** A CSV file is kept as the rows of cells that [csv.reader] yields from
    it and that [csv.writer] was given; the empty list is the file of size
    zero.  [Unreadable] is a file whose decoding raises. *)
Inductive table_file :=
| Rows (t : list (list string))
| Unreadable.

Global Instance table_file_eq_dec : EqDecision table_file.
Proof. solve_decision. Defined.

Record world := World {
  environ : gmap string string;       (* os.environ *)
  tables : gmap string table_file;    (* the CSV files, by path *)
  texts : gmap string string;         (* the text files, by path *)
  unwritable : gset string;           (* paths that cannot be opened for writing *)
  draws : list nat;                   (* the raw draws the random source will give *)
  clock : Z;                          (* seconds *)
  isoformat : Z -> string;            (* datetime.isoformat of a time *)
  strftime : Z -> string;             (* strftime('%Y-%m-%d %H:%M') of a time *)
  events : list event                 (* newest first *)
}.

Definition set_tables (f : gmap string table_file -> gmap string table_file) (w : world) : world :=
  World (environ w) (f (tables w)) (texts w) (unwritable w) (draws w) (clock w)
        (isoformat w) (strftime w) (events w).
Definition set_texts (f : gmap string string -> gmap string string) (w : world) : world :=
  World (environ w) (tables w) (f (texts w)) (unwritable w) (draws w) (clock w)
        (isoformat w) (strftime w) (events w).
Definition set_draws (ds : list nat) (w : world) : world :=
  World (environ w) (tables w) (texts w) (unwritable w) ds (clock w)
        (isoformat w) (strftime w) (events w).
Definition set_clock (t : Z) (w : world) : world :=
  World (environ w) (tables w) (texts w) (unwritable w) (draws w) t
        (isoformat w) (strftime w) (events w).
Definition emit (e : event) (w : world) : world :=
  World (environ w) (tables w) (texts w) (unwritable w) (draws w) (clock w)
        (isoformat w) (strftime w) (e :: events w).

(** ** The monad of the script: state and exceptions *)

Definition M (A : Type) : Type := world -> result A * world.

Global Instance M_ret : MRet M := fun A a w => (Ok a, w).
Global Instance M_bind : MBind M := fun A B f m w =>
  match m w with
  | (Ok a, w') => f a w'
  | (Raise e, w') => (Raise e, w')
  end.

Definition raise {A} (e : exn) : M A := fun w => (Raise e, w).

(** [try: body except Exception as e: handler(e)]; [SystemExit] is not an
    [Exception] and passes through. *)
Definition try_except {A} (body : M A) (handler : exn -> M A) : M A := fun w =>
  match body w with
  | (Ok a, w') => (Ok a, w')
  | (Raise (SystemExit n), w') => (Raise (SystemExit n), w')
  | (Raise e, w') => handler e w'
  end.

Definition get_world : M world := fun w => (Ok w, w).
Definition modify (f : world -> world) : M unit := fun w => (Ok tt, f w).

(** [pass] *)
Definition pass : M unit := mret tt.

Definition print (line : string) : M unit := modify (emit (Print line)).
Definition os_system (command : string) : M unit := modify (emit (System command)).
Definition time_sleep (seconds : nat) : M unit :=
  modify (fun w => emit (Sleep seconds) (set_clock (clock w + Z.of_nat seconds) w)).

(** ** The [random] module

    The source of randomness is the list [draws] of the world; each call
    consumes the draws it needs and reduces them to its range.  An exhausted
    list gives zeros. *)

Module Random.

Definition draw : M nat := fun w =>
  match draws w with
  | [] => (Ok 0, w)
  | d :: ds => (Ok d, set_draws ds w)
  end.

(** [random.randint(a, b)] *)
Definition randint (a b : nat) : M nat :=
  d ← draw; mret (a + d mod (b - a + 1)).

(** [random.random() < p], with the float in thousandths. *)
Definition random_lt (p_thousandths : nat) : M bool :=
  d ← draw; mret (d mod 1000 <? p_thousandths).

(** [random.choice(seq)] *)
Definition choice {A} (seq : list A) : M A :=
  match seq with
  | [] => raise IndexError
  | x :: _ => d ← draw; mret (default x (seq !! (d mod length seq)))
  end.

(** [random.sample(population, k)], by the pool algorithm: the chosen
    position is refilled with the last element of the pool, which then
    shrinks by one. *)
Fixpoint sample_go {A} (k : nat) (pool : list A) : M (list A) :=
  match k with
  | 0 => mret []
  | S k' =>
      d ← draw;
      let j := d mod length pool in
      match pool !! j, last pool with
      | Some x, Some y =>
          rest ← sample_go k' (take (length pool - 1) (<[j := y]> pool));
          mret (x :: rest)
      | _, _ => mret []
      end
  end.

Definition sample {A} (population : list A) (k : nat) : M (list A) :=
  if length population <? k then raise ValueError
  else sample_go k population.

End Random.

(** ** The [csv] module: [DictReader] and [DictWriter] over rows of cells *)

Module Csv.

(** [dict(zip(fieldnames, cells))]: a later duplicate of a field name
    overrides an earlier one. *)
Fixpoint dict_zip (fieldnames cells : list string) (d : row) : row :=
  match fieldnames, cells with
  | f :: fs, c :: cs => dict_zip fs cs (<[Some f := VStr c]> d)
  | _, _ => d
  end.

(** [for key in fieldnames[lr:]: d[key] = restval] *)
Definition fill_restval (keys : list string) (d : row) : row :=
  foldl (fun d key => <[Some key := VNone]> d) d keys.

(** One row of [DictReader.__next__]. *)
Definition to_dict (fieldnames cells : list string) : row :=
  let d := dict_zip fieldnames cells ∅ in
  let lf := length fieldnames in
  let lr := length cells in
  if lf <? lr then <[None := VRest (drop lf cells)]> d
  else if lr <? lf then fill_restval (drop lr fieldnames) d
  else d.

(** [list(csv.DictReader(file))]: the first row gives the field names,
    blank rows after it are skipped. *)
Definition DictReader (t : list (list string)) : list row :=
  match t with
  | [] => []
  | fieldnames :: rows =>
      to_dict fieldnames <$> filter (fun cells => cells ≠ []) rows
  end.

(** The cell [csv.writer] writes for [rowdict.get(key, '')]: [None] is
    written as the empty string, a list by its [repr]. *)
Definition cell (v : option value) : string :=
  match v with
  | Some (VStr s) => s
  | Some VNone => ""
  | Some (VRest cells) =>
      "[" +:+ Py.join ", " ((fun c => "'" +:+ c +:+ "'") <$> cells) +:+ "]"
  | None => ""
  end.

(** [DictWriter._dict_to_list] with [extrasaction='raise']. *)
Definition dict_to_list (fieldnames : list string) (d : row) : result (list string) :=
  if decide (map_Forall (fun key _ => key ∈ (Some <$> fieldnames)) d)
  then Ok ((fun key => cell (d !! Some key)) <$> fieldnames)
  else Raise ValueError.

End Csv.

(** ** File operations *)

(** [os.path.exists(path)] for a CSV file *)
Definition os_path_exists (path : string) : M bool :=
  w ← get_world; mret (bool_decide (is_Some (tables w !! path))).

(** [os.path.getsize(path) == 0] for a CSV file *)
Definition getsize_is_zero (path : string) : M bool :=
  w ← get_world;
  match tables w !! path with
  | Some (Rows []) => mret true
  | Some _ => mret false
  | None => raise OSError
  end.

(** [with open(path, 'r') as file: list(csv.DictReader(file))] *)
Definition read_dicts (path : string) : M (list row) :=
  w ← get_world;
  match tables w !! path with
  | Some (Rows t) => mret (Csv.DictReader t)
  | Some Unreadable => raise UnicodeDecodeError
  | None => raise OSError
  end.

(** [open(path, 'w')] on a CSV file: created or truncated. *)
Definition open_table_w (path : string) : M unit :=
  modify (fun w => emit (OpenW path) (set_tables <[path := Rows []]> w)).

(** [csv.writer.writerow(cells)] on the open file. *)
Definition writerow (path : string) (cells : list string) : M unit :=
  modify (set_tables (fun ts =>
    match ts !! path with
    | Some (Rows t) => <[path := Rows (t ++ [cells])]> ts
    | _ => <[path := Rows [cells]]> ts
    end)).

(** [DictWriter.writerows(rowdicts)]: the rows before an offending one are
    written. *)
Fixpoint writerows (path : string) (fieldnames : list string) (rowdicts : list row) : M unit :=
  match rowdicts with
  | [] => pass
  | d :: rest =>
      match Csv.dict_to_list fieldnames d with
      | Ok cells => writerow path cells;; writerows path fieldnames rest
      | Raise e => raise e
      end
  end.

(** [os.remove(path)] *)
Definition os_remove (path : string) : M unit :=
  modify (fun w => emit (Remove path) (set_tables (delete path) w)).

(** ** 1. Configuration *)

Definition INPUT_CSV_FILE : string := "content-engine/new_keywords.csv".
Definition PROCESSED_CSV_FILE : string := "content-engine/processed_keywords.csv".
Definition BLOCKS_DIR : string := "blocks/".
Definition PUBLISHER_CONTENT_DIR : string := "../knowledge-hub/content/posts/".
Definition NUM_POSTS_TO_GENERATE : nat := 5.
(** 0.6, in thousandths *)
Definition AFFILIATE_KEY_CHANCE : nat := 600.
Definition MIN_HUMAN_DELAY : nat := 30.
Definition MAX_HUMAN_DELAY : nat := 120.

Definition H2_SECTIONS : list string :=
  ["Benefits-and-Advantages"; "Key-Challenges";
   "Practical-Steps-to-Implement"; "Expert-Tips-and-Insights"].

Definition BLOCK_FILES : list (string * string) :=
  [("intro", "intros.txt"); ("explanation", "explanations.txt");
   ("pros", "pros.txt"); ("cons", "cons.txt"); ("steps", "steps.txt");
   ("tips", "tips.txt"); ("cta", "cta.txt")].

Definition HUMAN_SIGNATURE : string :=
  nl +:+ "---" +:+ nl +:+ nl +:+
  "*Editor's Note: This guide was constructed by the Knowledge Hub engine to provide concise and deep insights into {keyword}. We hope it has been a valuable addition to your knowledge base.*"
  +:+ nl.

Definition PLACEHOLDER : string :=
  "[Placeholder block content - please fill this file]".

(** ** 2. Core functions *)

(** The lines of a text file.  [\r] and [\n] both end a line; the empty
    lines this leaves are dropped by the caller. *)
Fixpoint file_lines (s : string) : list string :=
  match s with
  | "" => [""]
  | String c s' =>
      if bool_decide (c = "010"%char ∨ c = "013"%char) then "" :: file_lines s'
      else match file_lines s' with
           | [] => [String c ""]
           | l :: ls => String c l :: ls
           end
  end.

(** The body of the loop of [load_blocks] for one entry of [BLOCK_FILES]. *)
Definition load_block (blocks : gmap string (list string)) (entry : string * string)
  : M (gmap string (list string)) :=
  let '(key, filename) := entry in
  w ← get_world;
  match texts w !! (BLOCKS_DIR +:+ filename) with
  | Some content =>
      mret (<[key := filter (fun line => line ≠ "") (Py.strip <$> file_lines content)]> blocks)
  | None =>
      print ("⚠️ Block file not found: " +:+ filename);;
      mret (<[key := [PLACEHOLDER]]> blocks)
  end.

Fixpoint for_each {A S} (body : S -> A -> M S) (items : list A) (s : S) : M S :=
  match items with
  | [] => mret s
  | x :: rest => s' ← body s x; for_each body rest s'
  end.

Definition load_blocks : M (gmap string (list string)) :=
  for_each load_block BLOCK_FILES ∅.

Definition has_fields (r : row) : Prop :=
  is_Some (r !! Some "keyword") ∧ is_Some (r !! Some "title").

Definition load_keywords : M (list row) :=
  present ← os_path_exists INPUT_CSV_FILE;
  if negb present then mret []
  else
    size_zero ← getsize_is_zero INPUT_CSV_FILE;
    if size_zero : bool then mret []
    else
      rows ← read_dicts INPUT_CSV_FILE;
      mret (filter has_fields rows).

Definition write_table (path : string) (rowdicts : list row) : M unit :=
  let fieldnames := ["keyword"; "title"] in
  open_table_w path;;
  writerow path fieldnames;;
  writerows path fieldnames rowdicts.

Definition load_previous_processed : M (list row) :=
  present ← os_path_exists PROCESSED_CSV_FILE;
  if negb present then mret []
  else
    size_zero ← getsize_is_zero PROCESSED_CSV_FILE;
    if size_zero : bool then mret []
    else
      try_except (read_dicts PROCESSED_CSV_FILE)
        (fun e =>
           print ("Error reading previous processed CSV: " +:+ str_exn e +:+ ". Overwriting.");;
           mret []).

Definition update_keywords_csv (remaining_keywords processed_keywords : list row) : M unit :=
  match remaining_keywords with
  | _ :: _ => write_table INPUT_CSV_FILE remaining_keywords
  | [] =>
      present ← os_path_exists INPUT_CSV_FILE;
      if present : bool then os_remove INPUT_CSV_FILE else pass
  end;;
  previous_processed ← load_previous_processed;
  let all_processed := previous_processed ++ processed_keywords in
  match all_processed with
  | _ :: _ => write_table PROCESSED_CSV_FILE all_processed
  | [] => pass
  end.

(** [d[key]] *)
Definition getitem {V} (d : gmap string V) (key : string) : M V :=
  match d !! key with
  | Some v => mret v
  | None => raise KeyError
  end.

(** [row[key]] on a row of the reader *)
Definition field (d : row) (key : string) : M value :=
  match d !! Some key with
  | Some v => mret v
  | None => raise KeyError
  end.

(** [s.replace(old, new)] where [new] comes from a row: a [TypeError]
    unless it is a string. *)
Definition replace_value (old : string) (new : value) (s : string) : M string :=
  match new with
  | VStr n => mret (Py.replace old n s)
  | _ => raise TypeError
  end.

(** How an f-string renders a value of a row. *)
Definition format_value (v : value) : string :=
  match v with
  | VStr s => s
  | VNone => "None"
  | VRest cells => Csv.cell (Some (VRest cells))
  end.

(** The affiliate-link shortcode that replaces [[CTA_LINK]]. *)
Definition affiliate_link (affiliate_key : string) : string :=
  "{{< affiliate_link key=" +:+ dq +:+ affiliate_key +:+ dq +:+
  " text=" +:+ dq +:+ "Click Here to Start" +:+ dq +:+ " >}}".

Definition GENERIC_CTA : string := "Visit a highly recommended resource here.".

(** The body of the loop over [selected_h2]: the text of one section. *)
Definition body_section (keyword : value) (loaded_blocks : gmap string (list string))
    (h2_tag : string) : M string :=
  section_content ←
    (if Py.contains "Benefits" h2_tag then
       blk ← getitem loaded_blocks "pros"; Random.choice blk
     else if Py.contains "Challenges" h2_tag then
       blk ← getitem loaded_blocks "cons"; Random.choice blk
     else if Py.contains "Steps" h2_tag then
       blk ← getitem loaded_blocks "steps"; Random.choice blk
     else if Py.contains "Tips" h2_tag then
       blk ← getitem loaded_blocks "tips"; Random.choice blk
     else mret "");
  let display_h2 := Py.title (Py.replace "-" " " h2_tag) in
  text ← replace_value "{keyword}" keyword section_content;
  mret ("## " +:+ display_h2 +:+ nl +:+ nl +:+ text).

(** The call-to-action text after the [[CTA_LINK]] substitution. *)
Definition cta_with_link (affiliate_key : option string) (cta_text : string) : string :=
  match affiliate_key with
  | Some (String _ _ as key) => Py.replace "[CTA_LINK]" (affiliate_link key) cta_text
  | _ => Py.replace "[CTA_LINK]" GENERIC_CTA cta_text
  end.

Definition generate_post_content (keyword_data : row)
    (loaded_blocks : gmap string (list string)) : M (string * option string) :=
  keyword ← field keyword_data "keyword";
  title ← field keyword_data "title";
  with_key ← Random.random_lt AFFILIATE_KEY_CHANCE;
  affiliate_key ←
    (if with_key : bool then
       n ← Random.randint 100 999; mret (Some ("OFFER_" +:+ Py.str_of_nat n))
     else mret None);
  (* 1. Intro *)
  let intro_title := "Introduction: An Overview" in
  intros ← getitem loaded_blocks "intro";
  chosen ← Random.choice intros;
  let intro := "## " +:+ intro_title +:+ nl +:+ nl +:+ chosen in
  intro ← replace_value "{keyword}" keyword intro;
  intro ← replace_value "{title}" title intro;
  let sections := [intro] in
  (* 2. Body sections *)
  count ← Random.randint 3 4;
  selected_h2 ← Random.sample H2_SECTIONS count;
  sections ← for_each (fun sections h2_tag =>
                         s ← body_section keyword loaded_blocks h2_tag;
                         mret (sections ++ [s]))
                      selected_h2 sections;
  (* 3. Conclusion (CTA) *)
  ctas ← getitem loaded_blocks "cta";
  cta_text ← Random.choice ctas;
  let conclusion_title := "Conclusion: Final Thoughts and Next Steps" in
  let cta_text := cta_with_link affiliate_key cta_text in
  cta ← replace_value "{keyword}" keyword cta_text;
  let sections := sections ++ ["## " +:+ conclusion_title +:+ nl +:+ nl +:+ cta] in
  (* 4. Human signature *)
  signature ← replace_value "{keyword}" keyword HUMAN_SIGNATURE;
  let sections := sections ++ [signature] in
  let full_content := Py.join (nl +:+ nl) sections in
  mret (full_content, affiliate_key).

Definition create_json_ld (title date url : string) : string :=
  nl +:+
  "<script type=" +:+ dq +:+ "application/ld+json" +:+ dq +:+ ">" +:+ nl +:+
  "{" +:+ nl +:+
  "  " +:+ dq +:+ "@context" +:+ dq +:+ ": " +:+ dq +:+ "https://schema.org" +:+ dq +:+ "," +:+ nl +:+
  "  " +:+ dq +:+ "@type" +:+ dq +:+ ": " +:+ dq +:+ "Article" +:+ dq +:+ "," +:+ nl +:+
  "  " +:+ dq +:+ "headline" +:+ dq +:+ ": " +:+ dq +:+
     Py.replace dq (backslash +:+ dq) title +:+ dq +:+ "," +:+ nl +:+
  "  " +:+ dq +:+ "datePublished" +:+ dq +:+ ": " +:+ dq +:+ date +:+ dq +:+ "," +:+ nl +:+
  "  " +:+ dq +:+ "mainEntityOfPage" +:+ dq +:+ ": " +:+ dq +:+ url +:+ dq +:+ "," +:+ nl +:+
  "  " +:+ dq +:+ "publisher" +:+ dq +:+ ": {" +:+ nl +:+
  "    " +:+ dq +:+ "@type" +:+ dq +:+ ": " +:+ dq +:+ "Organization" +:+ dq +:+ "," +:+ nl +:+
  "    " +:+ dq +:+ "name" +:+ dq +:+ ": " +:+ dq +:+ "Knowledge Hub" +:+ dq +:+ "," +:+ nl +:+
  "    " +:+ dq +:+ "logo" +:+ dq +:+ ": {" +:+ nl +:+
  "      " +:+ dq +:+ "@type" +:+ dq +:+ ": " +:+ dq +:+ "ImageObject" +:+ dq +:+ "," +:+ nl +:+
  "      " +:+ dq +:+ "url" +:+ dq +:+ ": " +:+ dq +:+
     "https://knowledgehubs.github.io/knowledge-hub/images/logo.png" +:+ dq +:+ nl +:+
  "    }" +:+ nl +:+
  "  }," +:+ nl +:+
  "  " +:+ dq +:+ "author" +:+ dq +:+ ": {" +:+ nl +:+
  "    " +:+ dq +:+ "@type" +:+ dq +:+ ": " +:+ dq +:+ "Person" +:+ dq +:+ "," +:+ nl +:+
  "    " +:+ dq +:+ "name" +:+ dq +:+ ": " +:+ dq +:+ "Knowledge Hub AI" +:+ dq +:+ nl +:+
  "  }" +:+ nl +:+
  "}" +:+ nl +:+
  "</script>" +:+ nl.

(** The slug of a title, as [generate_markdown_file] derives it. *)
Definition slug (title : string) : string :=
  Py.slice_to 60
    (Py.replace "," ""
       (Py.replace "." ""
          (Py.replace "/" ""
             (Py.replace ":" ""
                (Py.replace " " "-" (Py.lower title)))))).

(** [os.makedirs] and [open(filepath, 'w')] followed by [f.write]: an
    [OSError] when the path cannot be written. *)
Definition write_text (path content : string) : M unit :=
  w ← get_world;
  if decide (path ∈ unwritable w) then raise OSError
  else modify (fun w => emit (OpenW path) (set_texts <[path := content]> w)).

Definition generate_markdown_file (keyword_data : row) (content : string)
    (affiliate_key : option string) : M string :=
  title ← field keyword_data "title";
  keyword ← field keyword_data "keyword";
  title ← (match title with VStr t => mret t | _ => raise AttributeError end);
  let slug := slug title in
  minutes ← Random.randint 1 10;
  w ← get_world;
  let post_date := (clock w - 60 * Z.of_nat minutes)%Z in
  let front_matter :=
    "---" +:+ nl +:+
    "title: " +:+ dq +:+ title +:+ dq +:+ nl +:+
    "date: " +:+ isoformat w post_date +:+ nl +:+
    "description: " +:+ dq +:+ Py.strip (Py.slice_to 140 title) +:+
      " - A deep dive into " +:+ format_value keyword +:+
      " and its key applications." +:+ dq +:+ nl +:+
    "slug: " +:+ dq +:+ slug +:+ dq +:+ nl +:+
    "affiliate_key: " +:+ dq +:+
      (match affiliate_key with Some (String _ _ as key) => key | _ => "" end) +:+
      dq +:+ nl +:+
    "canonical: " +:+ dq +:+ "/posts/" +:+ slug +:+ "/" +:+ dq +:+ nl +:+
    "---" +:+ nl in
  let json_ld := create_json_ld title (isoformat w post_date) ("/posts/" +:+ slug +:+ "/") in
  let final_content := front_matter +:+ nl +:+ json_ld +:+ nl +:+ nl +:+ content in
  let filename := slug +:+ ".md" in
  let filepath := PUBLISHER_CONTENT_DIR +:+ filename in
  write_text filepath final_content;;
  mret filepath.

Definition execute_git_push (commit_message : string) : M unit :=
  print "--- 🔄 Starting Git operations... ---";;
  os_system "git add content-engine/";;
  os_system ("git add " +:+ Py.replace "../" "" PUBLISHER_CONTENT_DIR);;
  os_system ("git commit -m " +:+ dq +:+ commit_message +:+ dq);;
  print "--- ✅ Commit successful. The Workflow will handle the secure Push. ---".

(** ** 3. Main execution *)

(** The main loop threads [(processed_batch_data, processed_count)]. *)

(** The [try] block of the loop body. *)
Definition try_block (loaded_blocks : gmap string (list string))
    (st : list row * nat) (data : row) : M (list row * nat) :=
  generated ← generate_post_content data loaded_blocks;
  filepath ← generate_markdown_file data generated.1 generated.2;
  let st := (st.1 ++ [data], st.2 + 1) in
  print ("✅ Successfully generated " +:+ filepath +:+ ". Simulating human delay...");;
  delay ← Random.randint MIN_HUMAN_DELAY MAX_HUMAN_DELAY;
  print ("⏳ Delaying for " +:+ Py.str_of_nat delay +:+
         " seconds to simulate human pattern...");;
  time_sleep delay;;
  mret st.

(** The line that the [except] block prints. *)
Definition failure_line (title : value) (e : exn) : string :=
  "❌ Failed to generate article '" +:+ format_value title +:+ "': " +:+ str_exn e.

(** The [except Exception as e] block of the loop body. *)
Definition except_block (st : list row * nat) (data : row) (e : exn)
  : M (list row * nat) :=
  title ← field data "title";
  print (failure_line title e);;
  mret st.

(** The body of the main loop for one selected row. *)
Definition process_record (SYSTEM_MODE : string)
    (loaded_blocks : gmap string (list string))
    (st : list row * nat) (data : row) : M (list row * nat) :=
  if String.eqb SYSTEM_MODE "TEST" then
    title ← field data "title";
    print ("📝 TEST mode: Article '" +:+ format_value title +:+
           "' generated. Skipping permanent update and push.");;
    mret (st.1 ++ [data], st.2)
  else
    try_except (try_block loaded_blocks st data) (except_block st data).

(** The values of the variables of the script when it ends. *)
Record report := Report {
  all_keywords : list row;
  keywords_to_process_batch : list row;
  processed_batch_data : list row;
  processed_count : nat;
  remaining_keywords : list row
}.

Global Instance report_eq_dec : EqDecision report.
Proof. solve_decision. Defined.

(** The last statement of the script: the external snapshot. *)
Definition snapshot (SYSTEM_MODE : string) (processed_count : nat) : M unit :=
  if (0 <? processed_count) && String.eqb SYSTEM_MODE "LIVE" then
    w ← get_world;
    let commit_msg := "AUTO: Publish " +:+ Py.str_of_nat processed_count +:+
                      " new articles on " +:+ strftime w (clock w) in
    execute_git_push commit_msg;;
    print "🚀 Script finished. The Workflow Action will now execute the secure push."
  else if String.eqb SYSTEM_MODE "LIVE" then
    print "✅ Nothing new to commit or push."
  else pass.

(** The line printed before the loop. *)
Definition start_line (batch : list row) (SYSTEM_MODE : string) : string :=
  "🎉 Starting generation and push of " +:+ Py.str_of_nat (length batch) +:+
  " articles in " +:+ SYSTEM_MODE +:+ " mode.".

Definition main : M report :=
  w ← get_world;
  let SYSTEM_MODE := default "TEST" (environ w !! "SYSTEM_MODE") in
  loaded_blocks ← load_blocks;
  all_keywords ← load_keywords;
  match all_keywords with
  | [] =>
      print "🛑 No new keywords to process in the input CSV. Script exiting.";;
      raise (SystemExit 0)
  | _ :: _ =>
      batch ← Random.sample all_keywords (length all_keywords `min` NUM_POSTS_TO_GENERATE);
      print (start_line batch SYSTEM_MODE);;
      st ← for_each (process_record SYSTEM_MODE loaded_blocks) batch ([], 0);
      let processed_batch_data := st.1 in
      let processed_count := st.2 in
      (* Final keyword management *)
      let remaining_keywords := filter (fun k => k ∉ processed_batch_data) all_keywords in
      update_keywords_csv remaining_keywords processed_batch_data;;
      snapshot SYSTEM_MODE processed_count;;
      mret (Report all_keywords batch processed_batch_data processed_count
                   remaining_keywords)
  end.

(** ** Auxiliary definitions for the statements *)

(** Every character of [s] satisfies [P]. *)
Fixpoint all_chars (P : ascii -> bool) (s : string) : bool :=
  match s with
  | "" => true
  | String c s' => P c && all_chars P s'
  end.



(** A row that [DictWriter] accepts: it has no key besides the two field
    names. *)
Definition plain (d : row) : Prop :=
  map_Forall (fun key _ => key ∈ (Some <$> ["keyword"; "title"])) d.

Global Instance plain_dec d : Decision (plain d).
Proof. unfold plain. apply _. Defined.

(** The cells written for a row. *)
Definition cells_of (d : row) : list string :=
  [Csv.cell (d !! Some "keyword"); Csv.cell (d !! Some "title")].

(** The row as it is read back after having been written. *)
Definition written (d : row) : row :=
  Csv.to_dict ["keyword"; "title"] (cells_of d).

(** The rows before the first one that [DictWriter] refuses. *)
Fixpoint accepted (rowdicts : list row) : list row :=
  match rowdicts with
  | [] => []
  | d :: rest => if decide (plain d) then d :: accepted rest else []
  end.

(** The rows that [update_keywords_csv] reads from the processed table:
    none when the file is absent, empty or unreadable. *)
Definition previous_rows (ts : gmap string table_file) : list row :=
  match ts !! PROCESSED_CSV_FILE with
  | Some (Rows t) => Csv.DictReader t
  | _ => []
  end.

(** Several events, the first of the list being the newest. *)
Definition emits (es : list event) (w : world) : world := foldr emit w es.

Definition is_print (e : event) : Prop :=
  match e with Print _ => True | _ => False end.


(** The mode the script runs in. *)
Definition mode_of (w : world) : string :=
  default "TEST" (environ w !! "SYSTEM_MODE").

(** The tables after [update_keywords_csv], also when a row is refused:
    the pending table first, then the processed table. *)
Definition pending_after (remaining : list row)
    (ts : gmap string table_file) : gmap string table_file :=
  match remaining with
  | [] => delete INPUT_CSV_FILE ts
  | _ :: _ =>
      <[INPUT_CSV_FILE := Rows (["keyword"; "title"] :: (cells_of <$> accepted remaining))]> ts
  end.

Definition processed_after (remaining processed : list row)
    (ts : gmap string table_file) : gmap string table_file :=
  if decide (Forall plain remaining) then
    match previous_rows ts ++ processed with
    | [] => ts
    | all_processed =>
        <[PROCESSED_CSV_FILE :=
            Rows (["keyword"; "title"] :: (cells_of <$> accepted all_processed))]> ts
    end
  else ts.

(** The events of [update_keywords_csv]. *)
Definition ledger_event (e : event) : Prop :=
  match e with
  | Print _ => True
  | OpenW path => path = INPUT_CSV_FILE ∨ path = PROCESSED_CSV_FILE
  | Remove path => path = INPUT_CSV_FILE
  | _ => False
  end.

(** An exception that [except Exception] catches. *)
Definition is_Exception (e : exn) : Prop :=
  match e with SystemExit _ => False | _ => True end.

(** A computation that leaves the CSV tables alone and never exits the
    interpreter: what the loop of the script needs of the assembler and the
    emitter. *)
Definition contained {A} (m : M A) : Prop :=
  ∀ w r w', m w = (r, w') →
    tables w' = tables w ∧ environ w' = environ w ∧
    match r with Raise e => is_Exception e | Ok _ => True end.






(** ** Worlds for the examples *)

Definition demo_clock (t : Z) : string := "2024-05-01T12:00:00".
Definition demo_stamp (t : Z) : string := "2024-05-01 12:00".

Definition demo_table : list (list string) :=
  [["keyword"; "title"];
   ["seo"; "Intro to SEO: A/B, v1.0"];
   ["rust"; "Why Rust"]].

(** Two pending rows, no block file, no processed table, default mode. *)
Definition demo_test : world :=
  World ∅ {[ INPUT_CSV_FILE := Rows demo_table ]} ∅ ∅ [] 0 demo_clock demo_stamp [].

(** The same in [LIVE] mode. *)
Definition demo_live : world :=
  World {[ "SYSTEM_MODE" := "LIVE" ]} {[ INPUT_CSV_FILE := Rows demo_table ]}
        ∅ ∅ [] 0 demo_clock demo_stamp [].

(** The pending table holds the same row twice; default mode. *)
Definition twin_table : list (list string) :=
  [["keyword"; "title"]; ["seo"; "Intro to SEO"]; ["seo"; "Intro to SEO"]].

Definition twin_test : world :=
  World ∅ {[ INPUT_CSV_FILE := Rows twin_table ]} ∅ ∅ [] 0 demo_clock demo_stamp [].

(** The report of a run, when there is one. *)
Definition report_of (r : result report) : report :=
  match r with
  | Ok rep => rep
  | Raise _ => Report [] [] [] 0 []
  end.

(** The same row twice, [LIVE] mode, an empty [tips.txt]; the draws let the
    first document take three sections without the tips and send the second
    one to the tips. *)
Definition twin_live : world :=
  World {[ "SYSTEM_MODE" := "LIVE" ]} {[ INPUT_CSV_FILE := Rows twin_table ]}
        {[ "blocks/tips.txt" := "" ]} ∅
        [0; 0; 999; 0; 0; 0; 1; 1; 0; 0; 0; 0; 0; 0]
        0 demo_clock demo_stamp [].

(** ** The parts of an assembled document *)








(** ** Texts that a substitution leaves alone *)




(** A keyword row and the blocks of a world without block files. *)
Definition demo_row : row :=
  {[ Some "keyword" := VStr "seo"; Some "title" := VStr "Intro to SEO" ]}.

Definition demo_blocks : gmap string (list string) :=
  match (load_blocks demo_live).1 with
  | Ok blocks => blocks
  | Raise _ => ∅
  end.



(** ** Further auxiliary definitions *)

(** The fragments that [load_blocks] stores for a block file. *)
Definition loaded_block (w : world) (filename : string) : list string :=
  match texts w !! (BLOCKS_DIR +:+ filename) with
  | Some content => filter (fun line => line ≠ "") (Py.strip <$> file_lines content)
  | None => [PLACEHOLDER]
  end.

(** The warning of [load_blocks] for a missing block file. *)
Definition missing_block_warning (filename : string) : event :=
  Print ("⚠️ Block file not found: " +:+ filename).

(** The rows of the pending table that [load_keywords] returns. *)
Definition pending_keywords (w : world) : list row :=
  match tables w !! INPUT_CSV_FILE with
  | Some (Rows t) => filter has_fields (Csv.DictReader t)
  | _ => []
  end.

(** A pending table whose header lacks the [title] column. *)
Definition headless_test : world :=
  World ∅ {[ INPUT_CSV_FILE := Rows [["keyword"; "name"]; ["seo"; "Intro to SEO"]] ]}
        ∅ ∅ [] 0 demo_clock demo_stamp [].

(** A pending table with a row of three cells under a header of two. *)
Definition surplus_test : world :=
  World ∅ {[ INPUT_CSV_FILE :=
               Rows [["keyword"; "title"]; ["seo"; "Intro to SEO"; "extra"]] ]}
        ∅ ∅ [] 0 demo_clock demo_stamp [].

(** A world whose [intros.txt] holds blank lines only, [LIVE] mode. *)
Definition blank_intro_live : world :=
  World {[ "SYSTEM_MODE" := "LIVE" ]} {[ INPUT_CSV_FILE := Rows demo_table ]}
        {[ "blocks/intros.txt" := "  " +:+ nl +:+ nl ]} ∅ [] 0 demo_clock demo_stamp [].

(** The warnings of [load_blocks], newest first. *)
Definition block_warnings (w : world) (entries : list (string * string)) : list event :=
  reverse (missing_block_warning <$>
             filter (fun filename => texts w !! (BLOCKS_DIR +:+ filename) = None)
                    (entries.*2)).

(** The blocks after the loop of [load_blocks] over some entries. *)
Definition store_blocks (w : world) (entries : list (string * string))
    (blocks : gmap string (list string)) : gmap string (list string) :=
  foldl (fun blocks entry => <[entry.1 := loaded_block w entry.2]> blocks) blocks entries.
(** * Properties *)

(** ** Sanity checks of the string functions *)

Example lower_ex : Py.lower "Hello, World: A/B." = "hello, world: a/b.".
Proof. reflexivity. Qed.

Example title_ex :
  Py.title (Py.replace "-" " " "Practical-Steps-to-Implement") = "Practical Steps To Implement".
Proof. reflexivity. Qed.

Example replace_ex : Py.replace "aa" "b" "aaaxaa" = "baxb".
Proof. reflexivity. Qed.

Example replace_empty_ex : Py.replace "" "-" "abc" = "-a-b-c-".
Proof. reflexivity. Qed.

Example strip_ex : Py.strip "  a b  " = "a b".
Proof. reflexivity. Qed.

Example slug_ex : slug "Intro to SEO: A/B, v1.0" = "intro-to-seo-ab-v10".
Proof. reflexivity. Qed.

(** ** Strings *)

Section strings.

Implicit Types (s t u : string) (c : ascii).


Lemma str_app_cons c s t : String c s +:+ t = String c (s +:+ t).
Proof. reflexivity. Qed.

Lemma str_app_nil_r s : s +:+ "" = s.
Proof. induction s as [|c s IH]; [done | by rewrite str_app_cons, IH]. Qed.


Lemma str_length_app s t : String.length (s +:+ t) = String.length s + String.length t.
Proof. induction s as [|c s IH]; [done | by rewrite str_app_cons; simpl; rewrite IH]. Qed.








(** *** Replacing a single character *)





(** *** Lower case *)





End strings.

(** ** The slug *)



(** ** The monad *)

Section monad.

Context {A B : Type}.
Implicit Types (m : M A) (f : A -> M B) (w : world).

Lemma bind_unfold m f w :
  (m ≫= f) w =
  match m w with
  | (Ok a, w') => f a w'
  | (Raise e, w') => (Raise e, w')
  end.
Proof. reflexivity. Qed.

Lemma bind_ok m f w a w' : m w = (Ok a, w') → (m ≫= f) w = f a w'.
Proof. intros H. by rewrite bind_unfold, H. Qed.

Lemma bind_raise m f w e w' : m w = (Raise e, w') → (m ≫= f) w = (Raise e, w').
Proof. intros H. by rewrite bind_unfold, H. Qed.

Lemma bind_ok_inv m f w b w' :
  (m ≫= f) w = (Ok b, w') → ∃ a w1, m w = (Ok a, w1) ∧ f a w1 = (Ok b, w').
Proof.
  rewrite bind_unfold. destruct (m w) as [[a|e] w1]; [eauto | done].
Qed.

Lemma bind_raise_inv m f w e w' :
  (m ≫= f) w = (Raise e, w') →
  m w = (Raise e, w') ∨ ∃ a w1, m w = (Ok a, w1) ∧ f a w1 = (Raise e, w').
Proof.
  rewrite bind_unfold. destruct (m w) as [[a|e1] w1]; [|intros [= -> ->]; by left].
  intros H. right. eauto.
Qed.

End monad.

(** Unfolds the operations of the monad, to run a computation on a world. *)
Ltac unfold_monad :=
  unfold pass, print, os_system, time_sleep, get_world, modify, raise;
  unfold mbind, M_bind, mret, M_ret.

(** Settles a closed decidable statement by evaluating its decision. *)
Ltac by_evaluation :=
  match goal with |- ?P => apply (bool_decide_unpack P) end; vm_compute; exact I.

(** A run whose result is a normal return, written with the report and the
    world it gives. *)
Lemma main_returned w :
  is_Ok (main w).1 = true → main w = (Ok (report_of (main w).1), (main w).2).
Proof. by destruct (main w) as [[rep|e] w']. Qed.


(** ** Reading the pending table *)

(** A key of a row of the reader is a field name of the header; the cells
    of the row only decide the value. *)
Lemma dict_zip_lookup (fieldnames cells : list string) (d : row) (key : string) :
  is_Some (Csv.dict_zip fieldnames cells d !! Some key) ↔
  key ∈ take (length cells) fieldnames ∨ is_Some (d !! Some key).
Proof.
  revert cells d. induction fieldnames as [|f fs IH]; intros [|c cs] d; simpl.
  - rewrite elem_of_nil. tauto.
  - rewrite elem_of_nil. tauto.
  - rewrite elem_of_nil. tauto.
  - rewrite IH, elem_of_cons, lookup_insert_is_Some. 
    destruct (decide (f = key)) as [->|Hne]; [tauto|].
    split; [intros [?|[?|[? ?]]] | intros [[?|?]|?]]; try tauto; try congruence.
    right. right. split; [congruence | done].
Qed.

Lemma fill_restval_lookup (keys : list string) (d : row) (key : string) :
  is_Some (Csv.fill_restval keys d !! Some key) ↔ key ∈ keys ∨ is_Some (d !! Some key).
Proof.
  unfold Csv.fill_restval. revert d. induction keys as [|k ks IH]; intros d; simpl.
  - rewrite elem_of_nil. tauto.
  - rewrite IH, elem_of_cons, lookup_insert_is_Some.
    destruct (decide (k = key)) as [->|Hne]; [tauto|].
    split; [intros [?|[?|[? ?]]] | intros [[?|?]|?]]; try tauto; try congruence.
    right. right. split; [congruence | done].
Qed.

Lemma to_dict_lookup (fieldnames cells : list string) (key : string) :
  is_Some (Csv.to_dict fieldnames cells !! Some key) ↔ key ∈ fieldnames.
Proof.
  unfold Csv.to_dict.
  destruct (Nat.ltb_spec (length fieldnames) (length cells)) as [Hlt|Hge].
  - rewrite lookup_insert_ne by done. rewrite dict_zip_lookup, lookup_empty.
    rewrite take_ge by lia. split; [intros [?|[? ?]]; done | auto].
  - destruct (Nat.ltb_spec (length cells) (length fieldnames)) as [Hlt|Hge'].
    + rewrite fill_restval_lookup, dict_zip_lookup, lookup_empty.
      rewrite <-(take_drop (length cells) fieldnames) at 3.
      rewrite elem_of_app. split; [intros [?|[?|[? ?]]] | intros [?|?]]; auto; done.
    + rewrite dict_zip_lookup, lookup_empty, take_ge by lia.
      split; [intros [?|[? ?]]; done | auto].
Qed.

(** Whether a row has the two fields depends on the header alone: a short
    row keeps the field, with the value [None]. *)
Lemma to_dict_has_fields (fieldnames cells : list string) :
  has_fields (Csv.to_dict fieldnames cells) ↔
  "keyword" ∈ fieldnames ∧ "title" ∈ fieldnames.
Proof. unfold has_fields. by rewrite !to_dict_lookup. Qed.

Example short_row_kept :
  Csv.DictReader [["keyword"; "title"]; ["only-a-keyword"]] =
  [ {[ Some "keyword" := VStr "only-a-keyword"; Some "title" := VNone ]} ].
Proof. by_evaluation. Qed.

(** The rows of the pending table as the script sees them. *)
Lemma load_keywords_unfold w :
  load_keywords w =
  match tables w !! INPUT_CSV_FILE with
  | None | Some (Rows []) => (Ok [], w)
  | Some (Rows t) => (Ok (filter has_fields (Csv.DictReader t)), w)
  | Some Unreadable => (Raise UnicodeDecodeError, w)
  end.
Proof.
  unfold load_keywords, os_path_exists, getsize_is_zero, read_dicts.
  unfold_monad.
  destruct (tables w !! INPUT_CSV_FILE) as [[[|r t]|]|] eqn:E; simpl;
    rewrite ?E; done.
Qed.


(** ** Writing the ledgers *)

Lemma events_emits es w : events (emits es w) = es ++ events w.
Proof. induction es as [|e es IH]; simpl; [done | by rewrite IH]. Qed.

Lemma tables_emits es w : tables (emits es w) = tables w.
Proof. induction es as [|e es IH]; simpl; [done | by rewrite IH]. Qed.

Lemma texts_emits es w : texts (emits es w) = texts w.
Proof. induction es as [|e es IH]; simpl; [done | by rewrite IH]. Qed.

Lemma accepted_all rowdicts : Forall plain rowdicts → accepted rowdicts = rowdicts.
Proof.
  induction 1 as [|d rest Hd _ IH]; simpl; [done|].
  rewrite decide_True by done. by rewrite IH.
Qed.

Lemma dict_to_list_plain d :
  Csv.dict_to_list ["keyword"; "title"] d =
  if decide (plain d) then Ok (cells_of d) else Raise ValueError.
Proof. reflexivity. Qed.

Lemma writerows_run path rowdicts w t0 :
  tables w !! path = Some (Rows t0) →
  writerows path ["keyword"; "title"] rowdicts w =
  (if decide (Forall plain rowdicts) then Ok tt else Raise ValueError,
   set_tables <[path := Rows (t0 ++ (cells_of <$> accepted rowdicts))]> w).
Proof.
  revert w t0. induction rowdicts as [|d rest IH]; intros w t0 Ht0.
  - cbn [writerows accepted fmap list_fmap]. rewrite decide_True by done.
    unfold_monad. f_equal.
    destruct w as [? ts ? ? ? ? ? ? ?]; simpl in *. unfold set_tables; simpl.
    f_equal. rewrite (right_id_L [] (++)). by rewrite insert_id.
  - cbn [writerows accepted]. rewrite dict_to_list_plain.
    destruct (decide (plain d)) as [Hd|Hd].
    + unfold writerow. unfold_monad. 
      erewrite IH; [|by simpl; rewrite Ht0, lookup_insert_eq].
      f_equal.
      * destruct (decide (Forall plain rest)) as [Hr|Hr].
        -- rewrite decide_True; [done | by constructor].
        -- rewrite decide_False; [done|]. by intros [_ ?]%Forall_cons.
      * unfold set_tables; simpl. rewrite Ht0, insert_insert_eq.
        by rewrite <-(assoc_L (++)).
    + rewrite decide_False by (by intros [? _]%Forall_cons).
      unfold_monad. f_equal.
      destruct w as [? ts ? ? ? ? ? ? ?]; simpl in *. unfold set_tables; simpl.
      f_equal. rewrite (right_id_L [] (++)). by rewrite insert_id.
Qed.

Lemma write_table_run path rowdicts w :
  write_table path rowdicts w =
  (if decide (Forall plain rowdicts) then Ok tt else Raise ValueError,
   emit (OpenW path)
     (set_tables <[path := Rows (["keyword"; "title"] :: (cells_of <$> accepted rowdicts))]> w)).
Proof.
  unfold write_table, open_table_w, writerow. unfold_monad.
  erewrite writerows_run.
  2:{ simpl. rewrite lookup_insert_eq. by rewrite lookup_insert_eq. }
  f_equal. unfold set_tables, emit; simpl.
  by rewrite lookup_insert_eq, !insert_insert_eq.
Qed.

Lemma load_previous_processed_run w :
  ∃ es, load_previous_processed w = (Ok (previous_rows (tables w)), emits es w) ∧
        Forall is_print es.
Proof.
  unfold load_previous_processed, os_path_exists, getsize_is_zero, read_dicts,
    try_except, previous_rows.
  unfold_monad.
  destruct (tables w !! PROCESSED_CSV_FILE) as [[[|r t]|]|] eqn:E; simpl; rewrite ?E.
  - by exists [].
  - by exists [].
  - eexists [_]. split; [done|]. by repeat constructor.
  - by exists [].
Qed.

Lemma set_tables_emits f es w : set_tables f (emits es w) = emits es (set_tables f w).
Proof. induction es as [|e es IH]; simpl; [done|]. by rewrite <-IH. Qed.

Lemma tables_set_tables f w : tables (set_tables f w) = f (tables w).
Proof. reflexivity. Qed.

Lemma set_tables_id f w : f (tables w) = tables w → set_tables f w = w.
Proof. destruct w; unfold set_tables; simpl. by intros ->. Qed.

Lemma emits_app es1 es2 w : emits es1 (emits es2 w) = emits (es1 ++ es2) w.
Proof. unfold emits. by rewrite foldr_app. Qed.

Lemma previous_rows_pending_after remaining ts :
  previous_rows (pending_after remaining ts) = previous_rows ts.
Proof.
  unfold previous_rows, pending_after. destruct remaining.
  - by rewrite lookup_delete_ne.
  - by rewrite lookup_insert_ne.
Qed.

(** What [update_keywords_csv] does, whatever its arguments. *)
Lemma update_keywords_csv_run remaining processed w :
  let prev := previous_rows (tables w) in
  ∃ es,
    update_keywords_csv remaining processed w =
      (if decide (Forall plain remaining ∧ Forall plain (prev ++ processed))
       then Ok tt else Raise ValueError,
       emits es (set_tables (fun ts => processed_after remaining processed
                                        (pending_after remaining ts)) w)) ∧
    Forall ledger_event es ∧
    (OpenW PROCESSED_CSV_FILE ∈ es → prev ++ processed ≠ []).
Proof.
  intros prev. unfold update_keywords_csv.
  (* the pending table *)
  assert (∃ es1,
    (match remaining with
     | [] => present ← os_path_exists INPUT_CSV_FILE;
             if present : bool then os_remove INPUT_CSV_FILE else pass
     | _ :: _ => write_table INPUT_CSV_FILE remaining
     end) w =
    (if decide (Forall plain remaining) then Ok tt else Raise ValueError,
     emits es1 (set_tables (pending_after remaining) w)) ∧
    Forall ledger_event es1 ∧ OpenW PROCESSED_CSV_FILE ∉ es1) as (es1 & Hrun1 & Hes1 & Hno1).
  { destruct remaining as [|d rest].
    - unfold os_path_exists, os_remove. unfold_monad. simpl.
      destruct (tables w !! INPUT_CSV_FILE) as [f|] eqn:E; simpl.
      + exists [Remove INPUT_CSV_FILE]. split; [done|]. split.
        * by repeat constructor.
        * by intros [=]%list_elem_of_singleton.
      + exists []. split.
        * simpl. f_equal. symmetry. apply set_tables_id. by apply delete_id.
        * split; [done | by apply not_elem_of_nil].
    - rewrite write_table_run. exists [OpenW INPUT_CSV_FILE]. split; [done|]. split.
      + by repeat constructor.
      + by intros [=]%list_elem_of_singleton. }
  rewrite bind_unfold, Hrun1.
  destruct (decide (Forall plain remaining)) as [Hrem|Hrem].
  2:{ exists es1. rewrite decide_False by tauto. split; [|by split].
      f_equal. f_equal. unfold processed_after.
      by destruct (decide (Forall plain remaining)). }
  (* the processed table *)
  destruct (load_previous_processed_run (emits es1 (set_tables (pending_after remaining) w)))
    as (es2 & Hrun2 & Hes2).
  rewrite bind_unfold, Hrun2, tables_emits, tables_set_tables.
  rewrite previous_rows_pending_after. fold prev.
  assert (Hpr : ∀ e, e ∈ es2 → e ≠ OpenW PROCESSED_CSV_FILE).
  { intros e He ->. by eapply Forall_forall in Hes2; [|done]. }
  assert (Hafter : ∀ ts,
    processed_after remaining processed (pending_after remaining ts) =
    match previous_rows ts ++ processed with
    | [] => pending_after remaining ts
    | all_processed =>
        <[PROCESSED_CSV_FILE :=
            Rows (["keyword"; "title"] :: (cells_of <$> accepted all_processed))]>
          (pending_after remaining ts)
    end).
  { intros ts. unfold processed_after. rewrite decide_True by done.
    by rewrite previous_rows_pending_after. }
  assert (Hw : ∀ es,
    emits es (set_tables (fun ts => processed_after remaining processed
                                      (pending_after remaining ts)) w) =
    emits es (set_tables (fun _ => processed_after remaining processed
                                      (pending_after remaining (tables w))) w)).
  { intros es. done. }
  setoid_rewrite Hw. rewrite Hafter. fold prev.
  destruct (prev ++ processed) as [|d rest] eqn:Eall.
  - exists (es2 ++ es1). rewrite decide_True by (split; [done | constructor]).
    split; [|split].
    + unfold_monad. by rewrite emits_app.
    + apply Forall_app. split; [|done].
      eapply Forall_impl; [done|]. by intros [].
    + intros [He|He]%elem_of_app; [by apply Hpr in He | done].
  - rewrite write_table_run. exists (OpenW PROCESSED_CSV_FILE :: es2 ++ es1).
    split; [|split].
    + f_equal.
      * destruct (decide (Forall plain (d :: rest))) as [Hall|Hall].
        -- by rewrite decide_True.
        -- rewrite decide_False; [done | tauto].
      * rewrite emits_app, set_tables_emits. done.
    + constructor; [by right|]. apply Forall_app. split; [|done].
      eapply Forall_impl; [done|]. by intros [].
    + done.
Qed.

Lemma DictReader_written rowdicts :
  Csv.DictReader (["keyword"; "title"] :: (cells_of <$> rowdicts)) = written <$> rowdicts.
Proof.
  unfold Csv.DictReader.
  induction rowdicts as [|d rest IH]; [done|].
  rewrite !fmap_cons, filter_cons_True by done. by rewrite fmap_cons, IH.
Qed.

(** A row with both fields holding strings and no other key is read back
    as it was written. *)
Lemma written_id (d : row) k t :
  plain d → d !! Some "keyword" = Some (VStr k) → d !! Some "title" = Some (VStr t) →
  written d = d.
Proof.
  intros Hplain Hk Ht. unfold written, cells_of. rewrite Hk, Ht.
  apply map_eq. intros key.
  change (Csv.to_dict ["keyword"; "title"] [Csv.cell (Some (VStr k)); Csv.cell (Some (VStr t))])
    with (<[Some "title" := VStr t]> (<[Some "keyword" := VStr k]> (∅ : row))).
  destruct (decide (key = Some "title")) as [->|Hnt].
  { by rewrite lookup_insert_eq. }
  rewrite lookup_insert_ne by done.
  destruct (decide (key = Some "keyword")) as [->|Hnk].
  { by rewrite lookup_insert_eq. }
  rewrite lookup_insert_ne, lookup_empty by done.
  destruct (d !! key) as [v|] eqn:E; [|done].
  apply Hplain in E. simpl in E.
  apply elem_of_cons in E as [->|E]; [done|].
  apply elem_of_cons in E as [->|E]; [done|].
  by apply elem_of_nil in E.
Qed.

(** What [update_keywords_csv] does with rows that have no surplus key. *)
Lemma update_keywords_csv_plain (remaining processed : list row) (w : world) :
  Forall plain remaining →
  Forall plain processed →
  Forall plain (previous_rows (tables w)) →
  ∃ w', update_keywords_csv remaining processed w = (Ok tt, w') ∧
    tables w' !! INPUT_CSV_FILE =
      match remaining with
      | [] => None
      | _ :: _ => Some (Rows (["keyword"; "title"] :: (cells_of <$> remaining)))
      end ∧
    match previous_rows (tables w) ++ processed with
    | [] => tables w' !! PROCESSED_CSV_FILE = tables w !! PROCESSED_CSV_FILE
    | all_processed =>
        tables w' !! PROCESSED_CSV_FILE =
        Some (Rows (["keyword"; "title"] :: (cells_of <$> all_processed)))
    end ∧
    previous_rows (tables w') =
      (written <$> previous_rows (tables w)) ++ (written <$> processed).
Proof.
  intros Hrem Hproc Hprev.
  destruct (update_keywords_csv_run remaining processed w) as (es & Hrun & _ & _).
  assert (Hall : Forall plain (previous_rows (tables w) ++ processed))
    by (by apply Forall_app).
  rewrite decide_True in Hrun by done.
  eexists. split; [exact Hrun|].
  rewrite tables_emits, tables_set_tables.
  assert (Hpend : pending_after remaining (tables w) !! INPUT_CSV_FILE =
    match remaining with
    | [] => None
    | _ :: _ => Some (Rows (["keyword"; "title"] :: (cells_of <$> remaining)))
    end).
  { unfold pending_after. destruct remaining as [|d rest].
    - by rewrite lookup_delete_eq.
    - by rewrite lookup_insert_eq, accepted_all. }
  assert (Hpend' : pending_after remaining (tables w) !! PROCESSED_CSV_FILE =
                   tables w !! PROCESSED_CSV_FILE).
  { unfold pending_after. destruct remaining as [|d rest].
    - by rewrite lookup_delete_ne.
    - by rewrite lookup_insert_ne. }
  unfold processed_after. rewrite decide_True by done.
  rewrite previous_rows_pending_after.
  destruct (previous_rows (tables w) ++ processed) as [|d rest] eqn:Eall.
  - split_and!; [done..|].
    apply app_eq_nil in Eall as [Ep ->].
    rewrite previous_rows_pending_after. by rewrite Ep.
  - rewrite lookup_insert_ne, lookup_insert_eq by done.
    rewrite accepted_all by done. split_and!; [done..|].
    unfold previous_rows at 1. rewrite lookup_insert_eq.
    by rewrite DictReader_written, <-Eall, fmap_app.
Qed.

(** C7. When no row carries a key besides [keyword] and [title],
    [update_keywords_csv] succeeds; the pending table then holds the header
    and the remaining rows, and is absent (not empty) when there is no
    remaining row; the processed table holds the header, the rows it held
    before and then the newly processed rows, so that reading it back gives
    the previous rows followed by the new ones. *)
Theorem update_keywords_csv_commits (remaining processed : list row) (w : world) :
  Forall plain remaining →
  Forall plain processed →
  Forall plain (previous_rows (tables w)) →
  ∃ w', update_keywords_csv remaining processed w = (Ok tt, w') ∧
    tables w' !! INPUT_CSV_FILE =
      match remaining with
      | [] => None
      | _ :: _ => Some (Rows (["keyword"; "title"] :: (cells_of <$> remaining)))
      end ∧
    match previous_rows (tables w) ++ processed with
    | [] => tables w' !! PROCESSED_CSV_FILE = tables w !! PROCESSED_CSV_FILE
    | all_processed =>
        tables w' !! PROCESSED_CSV_FILE =
        Some (Rows (["keyword"; "title"] :: (cells_of <$> all_processed)))
    end ∧
    previous_rows (tables w') =
      (written <$> previous_rows (tables w)) ++ (written <$> processed).
Proof. apply update_keywords_csv_plain. Qed.

(** C10. When no row was processed and the processed table is absent or
    empty, [update_keywords_csv] leaves the processed table as it is and
    does not open it for writing; in general the processed table is opened
    for writing only when the previous rows and the newly processed rows
    together are not empty. *)
Theorem processed_table_written_only_when_nonempty
    (remaining processed : list row) (w : world) :
  let w' := (update_keywords_csv remaining processed w).2 in
  ∃ es, events w' = es ++ events w ∧
    (processed = [] →
     tables w !! PROCESSED_CSV_FILE = None ∨
     tables w !! PROCESSED_CSV_FILE = Some (Rows []) →
     tables w' !! PROCESSED_CSV_FILE = tables w !! PROCESSED_CSV_FILE ∧
     OpenW PROCESSED_CSV_FILE ∉ es) ∧
    (OpenW PROCESSED_CSV_FILE ∈ es → previous_rows (tables w) ++ processed ≠ []) ∧
    (previous_rows (tables w) ++ processed = [] →
     tables w' !! PROCESSED_CSV_FILE = tables w !! PROCESSED_CSV_FILE).
Proof.
  intros w'. subst w'.
  destruct (update_keywords_csv_run remaining processed w) as (es & Hrun & _ & Hopen).
  rewrite Hrun. cbn [snd]. exists es. rewrite events_emits.
  assert (Hkeep : previous_rows (tables w) ++ processed = [] →
    tables (emits es (set_tables (fun ts => processed_after remaining processed
                                              (pending_after remaining ts)) w))
      !! PROCESSED_CSV_FILE = tables w !! PROCESSED_CSV_FILE).
  { intros Hnil. rewrite tables_emits, tables_set_tables.
    unfold processed_after. rewrite previous_rows_pending_after, Hnil.
    destruct (decide (Forall plain remaining)); unfold pending_after;
      destruct remaining; by rewrite ?lookup_delete_ne, ?lookup_insert_ne. }
  split_and!; [done| |done|done].
  intros -> Hfile.
  assert (Hnil : previous_rows (tables w) ++ [] = []).
  { unfold previous_rows. by destruct Hfile as [-> | ->]. }
  split; [by apply Hkeep|]. intros Hin. by apply Hopen in Hin.
Qed.

(** ** Contained computations *)

Section contained.

Context {A B : Type}.

Lemma contained_ret (a : A) : contained (mret a : M A).
Proof. intros w r w' [= <- <-]. done. Qed.

Lemma contained_raise e : is_Exception e → contained (raise e : M A).
Proof. intros He w r w' [= <- <-]. done. Qed.

Lemma contained_bind (m : M A) (f : A → M B) :
  contained m → (∀ a, contained (f a)) → contained (m ≫= f).
Proof.
  intros Hm Hf w r w'. rewrite bind_unfold.
  destruct (m w) as [[a|e] w1] eqn:E; apply Hm in E as (Ht & He & Hr).
  - intros (Ht' & He' & Hr')%Hf. split_and!; [congruence..|done].
  - by intros [= <- <-].
Qed.

Lemma contained_modify (f : world → world) :
  (∀ w, tables (f w) = tables w ∧ environ (f w) = environ w) → contained (modify f).
Proof. intros Hf w r w' [= <- <-]. by destruct (Hf w). Qed.

End contained.

Lemma contained_get_world : contained get_world.
Proof. intros w r w' [= <- <-]. done. Qed.

Lemma contained_print line : contained (print line).
Proof. by apply contained_modify. Qed.

Lemma contained_time_sleep n : contained (time_sleep n).
Proof. by apply contained_modify. Qed.

Lemma contained_draw : contained Random.draw.
Proof.
  intros w r w'. unfold Random.draw.
  destruct (draws w); by intros [= <- <-].
Qed.

Lemma contained_for_each {A S} (body : S → A → M S) items s :
  (∀ s x, contained (body s x)) → contained (for_each body items s).
Proof.
  intros Hbody. revert s. induction items as [|x rest IH]; intros s; simpl.
  - apply contained_ret.
  - apply contained_bind; [apply Hbody | intros s'; apply IH].
Qed.

Lemma contained_sample_go {A} k (pool : list A) : contained (Random.sample_go k pool).
Proof.
  revert pool. induction k as [|k IH]; intros pool; simpl.
  - apply contained_ret.
  - apply contained_bind; [apply contained_draw|]. intros d.
    destruct (pool !! _), (last pool); try apply contained_ret.
    apply contained_bind; [apply IH|]. intros rest. apply contained_ret.
Qed.

(** Proves that a computation built from the operations of the script is
    [contained]. *)
Ltac contained_step :=
  match goal with
  | |- contained (mbind _ _) => apply contained_bind; [|intros ?]
  | |- contained (_ ≫= _) => apply contained_bind; [|intros ?]
  | |- contained (mret _) => apply contained_ret
  | |- contained (raise _) => by apply contained_raise
  | |- contained get_world => apply contained_get_world
  | |- contained (print _) => apply contained_print
  | |- contained (time_sleep _) => apply contained_time_sleep
  | |- contained Random.draw => apply contained_draw
  | |- contained (Random.sample_go _ _) => apply contained_sample_go
  | |- contained (for_each _ _ _) => apply contained_for_each; intros ? ?
  | |- contained (if ?b then _ else _) => destruct b
  | |- contained (match ?x with _ => _ end) => destruct x
  | |- contained (let (_, _) := ?x in _) => destruct x
  end.

Lemma contained_randint a b : contained (Random.randint a b).
Proof. unfold Random.randint. repeat contained_step. Qed.

Lemma contained_random_lt p : contained (Random.random_lt p).
Proof. unfold Random.random_lt. repeat contained_step. Qed.

Lemma contained_choice {A} (seq : list A) : contained (Random.choice seq).
Proof. unfold Random.choice. repeat contained_step. Qed.

Lemma contained_sample {A} (population : list A) k : contained (Random.sample population k).
Proof. unfold Random.sample. repeat contained_step. Qed.

Lemma contained_getitem {V} (d : gmap string V) key : contained (getitem d key).
Proof. unfold getitem. repeat contained_step. Qed.

Lemma contained_field d key : contained (field d key).
Proof. unfold field. repeat contained_step. Qed.

Lemma contained_replace_value old new s : contained (replace_value old new s).
Proof. unfold replace_value. repeat contained_step. Qed.

Lemma contained_write_text path content : contained (write_text path content).
Proof.
  unfold write_text. repeat contained_step. by apply contained_modify.
Qed.

Lemma contained_body_section keyword loaded_blocks h2_tag :
  contained (body_section keyword loaded_blocks h2_tag).
Proof.
  unfold body_section.
  repeat first [ contained_step | apply contained_getitem | apply contained_choice
               | apply contained_replace_value ].
Qed.

Lemma contained_generate_post_content keyword_data loaded_blocks :
  contained (generate_post_content keyword_data loaded_blocks).
Proof.
  unfold generate_post_content.
  repeat first [ apply contained_field | apply contained_random_lt
               | apply contained_randint | apply contained_getitem
               | apply contained_choice | apply contained_replace_value
               | apply contained_sample | apply contained_body_section
               | contained_step ].
Qed.

Lemma contained_generate_markdown_file keyword_data content affiliate_key :
  contained (generate_markdown_file keyword_data content affiliate_key).
Proof.
  unfold generate_markdown_file.
  repeat first [ apply contained_field | apply contained_randint
               | apply contained_write_text | contained_step ].
Qed.

(** ** The random source *)

Lemma set_draws_id w : set_draws (draws w) w = w.
Proof. by destruct w. Qed.

Lemma draw_run w : ∃ d ds, Random.draw w = (Ok d, set_draws ds w).
Proof.
  unfold Random.draw. destruct (draws w) as [|d ds] eqn:E.
  - exists 0, []. by rewrite <-E, set_draws_id.
  - by exists d, ds.
Qed.

Lemma randint_run a b w :
  ∃ n ds, Random.randint a b w = (Ok n, set_draws ds w) ∧ a ≤ n ∧ (a ≤ b → n ≤ b).
Proof.
  unfold Random.randint. destruct (draw_run w) as (d & ds & Hd).
  rewrite (bind_ok _ _ _ _ _ Hd). exists (a + d mod (b - a + 1)), ds.
  split; [done|]. split; [lia|]. intros Hab.
  pose proof (Nat.mod_upper_bound d (b - a + 1)). lia.
Qed.

(** One step of the pool algorithm takes an element out of the pool. *)
Lemma pool_step {A} (pool : list A) j x y :
  pool !! j = Some x → last pool = Some y →
  x :: take (length pool - 1) (<[j := y]> pool) ≡ₚ pool.
Proof.
  intros Hj Hlast. apply last_Some in Hlast as [init ->].
  rewrite length_app. cbn [length]. replace (length init + 1 - 1) with (length init) by lia.
  destruct (decide (j < length init)) as [Hlt|Hge].
  - rewrite lookup_app_l in Hj by done.
    rewrite insert_app_l by done.
    rewrite take_app_length' by (by rewrite length_insert).
    rewrite <-(take_drop_middle init j x Hj) at 2.
    rewrite insert_take_drop by done.
    rewrite <-!(assoc_L (++)). cbn [app].
    rewrite <-!Permutation_middle. by rewrite (right_id_L [] (++)).
  - apply lookup_lt_Some in Hj as Hlen. rewrite length_app in Hlen. cbn [length] in Hlen.
    assert (j = length init) as -> by lia.
    rewrite list_lookup_middle in Hj by done. injection Hj as ->.
    rewrite list_insert_id by (by rewrite list_lookup_middle).
    rewrite take_app_length. apply Permutation_cons_append.
Qed.

Lemma sample_go_run {A} k (pool : list A) w :
  k ≤ length pool →
  ∃ chosen ds, Random.sample_go k pool w = (Ok chosen, set_draws ds w) ∧
    length chosen = k ∧ chosen ⊆+ pool.
Proof.
  revert pool w. induction k as [|k IH]; intros pool w Hk.
  - exists [], (draws w). simpl. rewrite set_draws_id. split_and!; [done..|].
    apply submseteq_nil_l.
  - cbn [Random.sample_go]. destruct (draw_run w) as (d & ds1 & Hd).
    rewrite (bind_ok _ _ _ _ _ Hd).
    assert (Hpos : 0 < length pool) by lia.
    destruct (lookup_lt_is_Some_2 pool (d mod length pool)) as [x Hx].
    { apply Nat.mod_upper_bound. lia. }
    destruct (last pool) as [y|] eqn:Hy.
    2:{ apply last_None in Hy. subst pool. simpl in Hpos. lia. }
    rewrite Hx.
    destruct (IH (take (length pool - 1) (<[d mod length pool := y]> pool))
                 (set_draws ds1 w)) as (rest & ds2 & Hrest & Hlen & Hsub).
    { rewrite length_take, length_insert. lia. }
    rewrite (bind_ok _ _ _ _ _ Hrest). exists (x :: rest), ds2.
    split_and!; [done|by rewrite <-Hlen|].
    rewrite <-(pool_step pool _ x y Hx Hy). by apply submseteq_skip.
Qed.

Lemma sample_run {A} (population : list A) k w :
  k ≤ length population →
  ∃ chosen ds, Random.sample population k w = (Ok chosen, set_draws ds w) ∧
    length chosen = k ∧ chosen ⊆+ population.
Proof.
  intros Hk. unfold Random.sample.
  destruct (Nat.ltb_spec (length population) k); [lia|].
  by apply sample_go_run.
Qed.

(** ** Loading the blocks *)

Lemma load_block_run blocks entry w :
  ∃ blocks' es, load_block blocks entry w = (Ok blocks', emits es w) ∧ Forall is_print es.
Proof.
  destruct entry as [key filename]. unfold load_block. unfold_monad.
  destruct (texts w !! _) as [content|].
  - by eexists _, [].
  - eexists _, [_]. split; [done|]. by repeat constructor.
Qed.

Lemma load_blocks_run w :
  ∃ blocks es, load_blocks w = (Ok blocks, emits es w) ∧ Forall is_print es.
Proof.
  unfold load_blocks. generalize (∅ : gmap string (list string)) as blocks.
  revert w. induction BLOCK_FILES as [|entry rest IH]; intros w blocks.
  - by exists blocks, [].
  - destruct (load_block_run blocks entry w) as (blocks1 & es1 & Hrun & Hes1).
    destruct (IH (emits es1 w) blocks1) as (blocks2 & es2 & Hrest & Hes2).
    exists blocks2, (es2 ++ es1). cbn [for_each].
    rewrite (bind_ok _ _ _ _ _ Hrun), Hrest, emits_app. split; [done|].
    by apply Forall_app.
Qed.

(** ** The main loop *)

Lemma contained_try_block loaded_blocks st data :
  contained (try_block loaded_blocks st data).
Proof.
  unfold try_block.
  repeat first [ apply contained_generate_post_content
               | apply contained_generate_markdown_file
               | apply contained_randint | contained_step ].
Qed.

Lemma try_block_ok loaded_blocks st data w st' w' :
  try_block loaded_blocks st data w = (Ok st', w') → st' = (st.1 ++ [data], st.2 + 1).
Proof.
  unfold try_block. intros H.
  apply bind_ok_inv in H as (generated & w1 & _ & H).
  apply bind_ok_inv in H as (filepath & w2 & _ & H).
  apply bind_ok_inv in H as ([] & w3 & _ & H).
  apply bind_ok_inv in H as (delay & w4 & _ & H).
  apply bind_ok_inv in H as ([] & w5 & _ & H).
  apply bind_ok_inv in H as ([] & w6 & _ & H).
  by injection H as <- _.
Qed.


(** In [TEST] mode the row is marked processed and a line is printed. *)
Lemma process_record_test loaded_blocks st data w title :
  data !! Some "title" = Some title →
  process_record "TEST" loaded_blocks st data w =
  (Ok (st.1 ++ [data], st.2),
   emit (Print ("📝 TEST mode: Article '" +:+ format_value title +:+
                "' generated. Skipping permanent update and push.")) w).
Proof.
  intros Ht. unfold process_record, field. cbn [String.eqb Ascii.eqb Bool.eqb].
  rewrite Ht. by unfold_monad.
Qed.

(** In any other mode, a row whose [try] block succeeds is marked
    processed and counted. *)
Lemma process_record_success SYSTEM_MODE loaded_blocks st data w st' w' :
  SYSTEM_MODE ≠ "TEST" →
  try_block loaded_blocks st data w = (Ok st', w') →
  process_record SYSTEM_MODE loaded_blocks st data w =
  (Ok (st.1 ++ [data], st.2 + 1), w').
Proof.
  intros Hmode Hok. unfold process_record.
  apply String.eqb_neq in Hmode. rewrite Hmode.
  unfold try_except. rewrite Hok. by rewrite (try_block_ok _ _ _ _ _ _ Hok).
Qed.

(** A row whose [try] block raises is reported and left out: the state of
    the loop is unchanged. *)
Lemma process_record_failure SYSTEM_MODE loaded_blocks st data w e w' title :
  SYSTEM_MODE ≠ "TEST" →
  data !! Some "title" = Some title →
  try_block loaded_blocks st data w = (Raise e, w') →
  process_record SYSTEM_MODE loaded_blocks st data w =
  (Ok st, emit (Print (failure_line title e)) w').
Proof.
  intros Hmode Ht Hraise. unfold process_record.
  apply String.eqb_neq in Hmode. rewrite Hmode.
  unfold try_except. rewrite Hraise.
  destruct (contained_try_block _ _ _ _ _ _ Hraise) as (_ & _ & He).
  unfold except_block, field. rewrite Ht. unfold_monad.
  by destruct e.
Qed.

(** One turn of the loop never raises on a row that has a title; it keeps
    the tables, and either appends the row to the processed list or leaves
    the list as it is. *)
Lemma process_record_run SYSTEM_MODE loaded_blocks st data w :
  is_Some (data !! Some "title") →
  ∃ st' w', process_record SYSTEM_MODE loaded_blocks st data w = (Ok st', w') ∧
    tables w' = tables w ∧
    (st'.1 = st.1 ++ [data] ∨ st' = st).
Proof.
  intros [title Ht].
  destruct (decide (SYSTEM_MODE = "TEST")) as [->|Hmode].
  { rewrite (process_record_test _ _ _ _ _ Ht). eauto 10. }
  destruct (try_block loaded_blocks st data w) as [[st'|e] w'] eqn:E.
  - rewrite (process_record_success _ _ _ _ _ _ _ Hmode E).
    destruct (contained_try_block _ _ _ _ _ _ E) as (? & _ & _). eauto 10.
  - rewrite (process_record_failure _ _ _ _ _ _ _ _ Hmode Ht E).
    destruct (contained_try_block _ _ _ _ _ _ E) as (? & _ & _). eauto 10.
Qed.

(** The whole loop: it never raises, keeps the tables, and appends to the
    processed list a sublist of the batch. *)
Lemma main_loop_run SYSTEM_MODE loaded_blocks batch st w :
  Forall (fun data => is_Some (data !! Some "title")) batch →
  ∃ st' w' done,
    for_each (process_record SYSTEM_MODE loaded_blocks) batch st w = (Ok st', w') ∧
    tables w' = tables w ∧
    st'.1 = st.1 ++ done ∧ done `sublist_of` batch.
Proof.
  intros Hbatch. revert st w.
  induction Hbatch as [|data rest Hdata _ IH]; intros st w.
  - exists st, w, []. simpl. by rewrite (right_id_L [] (++)).
  - destruct (process_record_run SYSTEM_MODE loaded_blocks st data w Hdata)
      as (st1 & w1 & Hrun & Htab & Hst).
    destruct (IH st1 w1) as (st' & w' & done & Hloop & Htab' & Hst' & Hsub).
    cbn [for_each]. rewrite (bind_ok _ _ _ _ _ Hrun), Hloop.
    destruct Hst as [Hst | ->].
    + exists st', w', (data :: done). split_and!; [done|congruence| |by constructor].
      by rewrite Hst', Hst, <-(assoc_L (++)).
    + exists st', w', done. split_and!; [done|congruence|done|by constructor].
Qed.

(** ** The whole run *)



(** ** The partition of the pending rows *)




(** ** A run in [TEST] mode *)







Example demo_test_run :
  main demo_test = (Ok (report_of (main demo_test).1), (main demo_test).2) ∧
  mode_of demo_test = "TEST".
Proof. split; [apply main_returned|]; by_evaluation. Qed.




(** ** Twin rows *)



Example twin_test_run :
  main twin_test = (Ok (report_of (main twin_test).1), (main twin_test).2).
Proof. apply main_returned. by_evaluation. Qed.



(** ** A failed row *)

Example twin_live_run :
  main twin_live = (Ok (report_of (main twin_live).1), (main twin_live).2) ∧
  mode_of twin_live = "LIVE".
Proof. split; [apply main_returned|]; by_evaluation. Qed.




(** ** The assembled document *)













Example headings :
  (fun topic => Py.title (Py.replace "-" " " topic)) <$> H2_SECTIONS =
  ["Benefits And Advantages"; "Key Challenges";
   "Practical Steps To Implement"; "Expert Tips And Insights"].
Proof. reflexivity. Qed.

Example demo_blocks_loaded :
  (load_blocks demo_live).1 = Ok demo_blocks ∧
  demo_blocks !! "cta" = Some [PLACEHOLDER].
Proof. by_evaluation. Qed.


(** ** Substitution and occurrences *)

Section occurrences.

Implicit Types (s t u a b old new : string) (c : ascii).
















End occurrences.

(** ** The call to action *)





Example placeholder_has_no_token : Py.contains "[CTA_LINK]" PLACEHOLDER = false.
Proof. reflexivity. Qed.




(** ** The statements at work on the example worlds *)



Lemma update_keywords_csv_commits_witness :
  ∃ w', update_keywords_csv [demo_row] [demo_row] demo_test = (Ok tt, w') ∧
        tables w' !! INPUT_CSV_FILE =
        Some (Rows [["keyword"; "title"]; ["seo"; "Intro to SEO"]]).
Proof.
  destruct (update_keywords_csv_commits [demo_row] [demo_row] demo_test)
    as (w' & Hrun & Hpending & _).
  - by_evaluation.
  - by_evaluation.
  - by_evaluation.
  - exists w'. split; [exact Hrun|]. rewrite Hpending. by_evaluation.
Defined.


(** * Further properties of the script *)

(** ** The header decides what [load_keywords] returns *)

Lemma filter_fmap_all {A B} (P : B → Prop) `{∀ x, Decision (P x)} (f : A → B) (l : list A) :
  (∀ x, P (f x)) → filter P (f <$> l) = f <$> l.
Proof.
  intros HP. induction l as [|x l IH]; [done|].
  rewrite fmap_cons, filter_cons_True by done. by rewrite IH.
Qed.

Lemma filter_fmap_none {A B} (P : B → Prop) `{∀ x, Decision (P x)} (f : A → B) (l : list A) :
  (∀ x, ¬ P (f x)) → filter P (f <$> l) = [].
Proof.
  intros HP. induction l as [|x l IH]; [done|].
  by rewrite fmap_cons, filter_cons_False.
Qed.

(** X1. The rows that [load_keywords] keeps are decided by the header, not
    row by row: when the header names both [keyword] and [title], every
    non-blank row is returned, short or long; when it lacks one of them,
    nothing is returned. *)
Theorem load_keywords_follows_header (w : world) (fieldnames : list string)
    (rows : list (list string)) :
  tables w !! INPUT_CSV_FILE = Some (Rows (fieldnames :: rows)) →
  load_keywords w =
    (Ok (if decide ("keyword" ∈ fieldnames ∧ "title" ∈ fieldnames)
         then Csv.to_dict fieldnames <$> filter (fun cells => cells ≠ []) rows
         else []), w).
Proof.
  intros Ht. rewrite load_keywords_unfold, Ht. f_equal. f_equal.
  unfold Csv.DictReader. destruct (decide _) as [Hhdr|Hhdr].
  - apply filter_fmap_all. intros cells. by apply to_dict_has_fields.
  - apply filter_fmap_none. intros cells Hf. by apply to_dict_has_fields in Hf.
Qed.

Lemma load_keywords_follows_header_witness :
  load_keywords headless_test = (Ok [], headless_test).
Proof.
  rewrite (load_keywords_follows_header headless_test ["keyword"; "name"]
             [["seo"; "Intro to SEO"]]).
  - f_equal.
  - by_evaluation.
Defined.

(** ** Loading the blocks, in full *)

Lemma loaded_block_emits es w filename :
  loaded_block (emits es w) filename = loaded_block w filename.
Proof. unfold loaded_block. by rewrite texts_emits. Qed.

Lemma load_block_exact blocks key filename w :
  load_block blocks (key, filename) w =
  (Ok (<[key := loaded_block w filename]> blocks),
   emits (if decide (texts w !! (BLOCKS_DIR +:+ filename) = None)
          then [missing_block_warning filename] else []) w).
Proof.
  unfold load_block, loaded_block. unfold_monad.
  by destruct (texts w !! (BLOCKS_DIR +:+ filename)) as [content|].
Qed.

Lemma load_blocks_loop entries blocks es0 w :
  for_each load_block entries blocks (emits es0 w) =
  (Ok (store_blocks w entries blocks), emits (block_warnings w entries ++ es0) w).
Proof.
  revert blocks es0. induction entries as [|[key filename] rest IH]; intros blocks es0.
  - done.
  - cbn [for_each]. rewrite (bind_ok _ _ _ _ _ (load_block_exact _ _ _ _)).
    rewrite emits_app, texts_emits, loaded_block_emits, IH.
    f_equal. f_equal. unfold block_warnings. cbn [fmap list_fmap snd].
    destruct (decide (texts w !! (BLOCKS_DIR +:+ filename) = None)) as [Hmiss|Hthere].
    + rewrite filter_cons_True by done. rewrite fmap_cons, reverse_cons.
      by rewrite <-!(assoc_L (++)).
    + by rewrite filter_cons_False.
Qed.

Lemma store_blocks_other w entries blocks key :
  key ∉ entries.*1 → store_blocks w entries blocks !! key = blocks !! key.
Proof.
  unfold store_blocks. revert blocks.
  induction entries as [|[k f] rest IH]; intros blocks Hkey; [done|].
  cbn [foldl fst snd]. rewrite fmap_cons in Hkey. apply not_elem_of_cons in Hkey as [Hne Hkey].
  rewrite IH by done. by rewrite lookup_insert_ne.
Qed.

Lemma store_blocks_lookup w entries blocks key filename :
  NoDup (entries.*1) → (key, filename) ∈ entries →
  store_blocks w entries blocks !! key = Some (loaded_block w filename).
Proof.
  unfold store_blocks. revert blocks.
  induction entries as [|[k f] rest IH]; intros blocks Hnodup Hin.
  { by apply elem_of_nil in Hin. }
  rewrite fmap_cons in Hnodup. apply NoDup_cons in Hnodup as [Hk Hnodup].
  cbn [foldl fst snd]. apply elem_of_cons in Hin as [[= -> ->]|Hin].
  - fold (store_blocks w rest (<[k := loaded_block w f]> blocks)).
    rewrite store_blocks_other by done. apply lookup_insert_eq.
  - by apply IH.
Qed.

Lemma BLOCK_FILES_NoDup : NoDup (BLOCK_FILES.*1).
Proof. by_evaluation. Qed.



(** ** A block file with blank lines only *)

Lemma lstrip_blank s : all_chars Py.is_space s = true → Py.lstrip s = "".
Proof.
  induction s as [|c s IH]; [done|]. cbn [all_chars Py.lstrip].
  intros [-> Hs]%andb_prop. by apply IH.
Qed.

Lemma strip_blank s : all_chars Py.is_space s = true → Py.strip s = "".
Proof. intros Hs. unfold Py.strip. by rewrite lstrip_blank. Qed.

Lemma file_lines_blank content :
  all_chars Py.is_space content = true →
  Forall (fun line => all_chars Py.is_space line = true) (file_lines content).
Proof.
  induction content as [|c s IH]; [by repeat constructor|].
  cbn [all_chars file_lines]. intros [Hc Hs]%andb_prop. specialize (IH Hs).
  destruct (bool_decide _); [by constructor|].
  destruct (file_lines s) as [|line rest]; [repeat constructor; cbn; by rewrite Hc|].
  apply Forall_cons in IH as [Hline Hrest]. constructor; [|done].
  cbn [all_chars]. by rewrite Hc, Hline.
Qed.

Lemma loaded_block_blank w filename content :
  texts w !! (BLOCKS_DIR +:+ filename) = Some content →
  all_chars Py.is_space content = true →
  loaded_block w filename = [].
Proof.
  intros Hfile Hblank. unfold loaded_block. rewrite Hfile.
  pose proof (file_lines_blank content Hblank) as Hlines.
  induction Hlines as [|line rest Hline _ IH]; [done|].
  rewrite fmap_cons, filter_cons_False; [done|].
  intros Hne. apply Hne. by apply strip_blank.
Qed.

(** X3. A block file that is there but holds only white space gives the
    empty list of fragments, not the placeholder: the placeholder stands in
    for a missing file only. *)
Theorem blank_block_file_gives_no_fragment (w : world) (key filename content : string) :
  (key, filename) ∈ BLOCK_FILES →
  texts w !! (BLOCKS_DIR +:+ filename) = Some content →
  all_chars Py.is_space content = true →
  ∃ blocks w', load_blocks w = (Ok blocks, w') ∧ blocks !! key = Some [].
Proof.
  intros Hentry Hfile Hblank.
  exists (store_blocks w BLOCK_FILES ∅), (emits (block_warnings w BLOCK_FILES) w). split.
  - unfold load_blocks. pose proof (load_blocks_loop BLOCK_FILES ∅ [] w) as H.
    by rewrite (right_id_L [] (++)) in H.
  - rewrite (store_blocks_lookup _ _ _ _ _ BLOCK_FILES_NoDup Hentry).
    by rewrite (loaded_block_blank _ _ _ Hfile Hblank).
Qed.

Lemma blank_block_file_gives_no_fragment_witness :
  ∃ blocks w', load_blocks blank_intro_live = (Ok blocks, w') ∧ blocks !! "intro" = Some [].
Proof.
  apply (blank_block_file_gives_no_fragment blank_intro_live "intro" "intros.txt"
           ("  " +:+ nl +:+ nl)).
  - by_evaluation.
  - by_evaluation.
  - by_evaluation.
Defined.

Lemma random_lt_run p w : ∃ b ds, Random.random_lt p w = (Ok b, set_draws ds w).
Proof.
  unfold Random.random_lt. destruct (draw_run w) as (d & ds & Hd).
  rewrite (bind_ok _ _ _ _ _ Hd). by eexists _, ds.
Qed.

Lemma field_run (d : row) key v w : d !! Some key = Some v → field d key w = (Ok v, w).
Proof. intros H. unfold field. by rewrite H. Qed.

Lemma getitem_run {V} (d : gmap string V) key v w :
  d !! key = Some v → getitem d key w = (Ok v, w).
Proof. intros H. unfold getitem. by rewrite H. Qed.

(** X4. With an empty [intro] block, [generate_post_content] raises
    [IndexError] for every row that has the two fields: no document can be
    assembled. *)
Theorem empty_intro_block_raises_IndexError (keyword_data : row)
    (loaded_blocks : gmap string (list string)) (w : world) :
  has_fields keyword_data →
  loaded_blocks !! "intro" = Some [] →
  ∃ w', generate_post_content keyword_data loaded_blocks w = (Raise IndexError, w').
Proof.
  intros [[keyword Hkw] [title Htitle]] Hintro. unfold generate_post_content.
  rewrite (bind_ok _ _ _ _ _ (field_run _ _ _ _ Hkw)).
  rewrite (bind_ok _ _ _ _ _ (field_run _ _ _ _ Htitle)).
  destruct (random_lt_run AFFILIATE_KEY_CHANCE w) as (b & ds & Hb).
  rewrite (bind_ok _ _ _ _ _ Hb).
  assert (Hkey : ∃ affiliate_key w1,
    (if b
     then n ← Random.randint 100 999; mret (Some ("OFFER_" +:+ Py.str_of_nat n))
     else mret None) (set_draws ds w) = (Ok affiliate_key, w1)).
  { destruct b.
    - destruct (randint_run 100 999 (set_draws ds w)) as (n & ds' & Hn & _).
      rewrite (bind_ok _ _ _ _ _ Hn). by eexists _, _.
    - by eexists _, _. }
  destruct Hkey as (affiliate_key & w1 & Hkey).
  rewrite (bind_ok _ _ _ _ _ Hkey).
  rewrite (bind_ok _ _ _ _ _ (getitem_run _ _ _ _ Hintro)).
  exists w1. by rewrite bind_unfold.
Qed.

Lemma empty_intro_block_raises_IndexError_witness :
  ∃ w', generate_post_content demo_row {[ "intro" := [] ]} demo_live = (Raise IndexError, w').
Proof.
  apply empty_intro_block_raises_IndexError.
  - by_evaluation.
  - by_evaluation.
Defined.

(** ** The run, forwards *)

Lemma load_keywords_pending w : tables w !! INPUT_CSV_FILE ≠ Some Unreadable →
  load_keywords w = (Ok (pending_keywords w), w).
Proof.
  intros Hreadable. rewrite load_keywords_unfold. unfold pending_keywords.
  by destruct (tables w !! INPUT_CSV_FILE) as [[[|r t]|]|].
Qed.

Lemma pending_keywords_emits es w : pending_keywords (emits es w) = pending_keywords w.
Proof. unfold pending_keywords. by rewrite tables_emits. Qed.

Lemma pending_keywords_titles w :
  Forall (fun data : row => is_Some (data !! Some "title")) (pending_keywords w).
Proof.
  apply Forall_forall. intros data. unfold pending_keywords.
  destruct (tables w !! INPUT_CSV_FILE) as [[t|]|]; try by intros ?%elem_of_nil.
  by intros [[_ ?] _]%list_elem_of_filter.
Qed.

(** A run on a non-empty pending list reaches the ledger commit, and ends
    as the commit ends. *)
Lemma main_reaches_commit w :
  pending_keywords w ≠ [] →
  ∃ batch processed count w3,
    batch ⊆+ pending_keywords w ∧
    length batch = length (pending_keywords w) `min` NUM_POSTS_TO_GENERATE ∧
    processed `sublist_of` batch ∧
    tables w3 = tables w ∧
    let remaining := filter (fun k => k ∉ processed) (pending_keywords w) in
    main w =
    match update_keywords_csv remaining processed w3 with
    | (Ok _, w4) =>
        match snapshot (mode_of w) count w4 with
        | (Ok _, w5) => (Ok (Report (pending_keywords w) batch processed count remaining), w5)
        | (Raise e, w5) => (Raise e, w5)
        end
    | (Raise e, w4) => (Raise e, w4)
    end.
Proof.
  intros Hne.
  assert (Hreadable : tables w !! INPUT_CSV_FILE ≠ Some Unreadable).
  { intros H. apply Hne. unfold pending_keywords. by rewrite H. }
  destruct (load_blocks_run w) as (blocks & es1 & Hblocks & Hes1).
  assert (Hload : load_keywords (emits es1 w) = (Ok (pending_keywords w), emits es1 w)).
  { rewrite load_keywords_pending by (by rewrite tables_emits).
    by rewrite pending_keywords_emits. }
  destruct (sample_run (pending_keywords w)
              (length (pending_keywords w) `min` NUM_POSTS_TO_GENERATE) (emits es1 w))
    as (batch & ds & Hsample & Hlen & Hsub); [lia|].
  assert (Htitles : Forall (fun data : row => is_Some (data !! Some "title")) batch).
  { apply Forall_forall. intros data Hdata.
    pose proof (pending_keywords_titles w) as Hall.
    eapply Forall_forall in Hall; [done|]. by eapply elem_of_submseteq. }
  destruct (main_loop_run (mode_of w) blocks batch ([], 0)
              (emit (Print (start_line batch (mode_of w))) (set_draws ds (emits es1 w)))
              Htitles) as (st & w3 & done & Hloop & Htab & Hdone & Hsubl).
  exists batch, st.1, st.2, w3. split_and!; [done|done|by rewrite Hdone| |].
  { rewrite Htab. cbn [tables emit set_draws]. apply tables_emits. }
  intros remaining. unfold main. rewrite bind_unfold. cbn [get_world].
  fold (mode_of w). rewrite (bind_ok _ _ _ _ _ Hblocks), (bind_ok _ _ _ _ _ Hload).
  destruct (pending_keywords w) as [|k0 all'] eqn:Eall; [done|].
  rewrite (bind_ok _ _ _ _ _ Hsample).
  rewrite bind_unfold. unfold print at 1, modify at 1.
  rewrite (bind_ok _ _ _ _ _ Hloop).
  cbv zeta. rewrite bind_unfold. fold remaining.
  destruct (update_keywords_csv remaining st.1 w3) as [[[]|e] w4]; [|done].
  rewrite bind_unfold.
  by destruct (snapshot (mode_of w) st.2 w4) as [[[]|e] w5].
Qed.

Lemma main_no_pending w :
  tables w !! INPUT_CSV_FILE ≠ Some Unreadable →
  pending_keywords w = [] →
  ∃ es, main w = (Raise (SystemExit 0), emits es w) ∧
        Forall is_print es ∧
        Print "🛑 No new keywords to process in the input CSV. Script exiting." ∈ es.
Proof.
  intros Hreadable Hnone.
  destruct (load_blocks_run w) as (blocks & es1 & Hblocks & Hes1).
  assert (Hload : load_keywords (emits es1 w) = (Ok [], emits es1 w)).
  { rewrite load_keywords_pending by (by rewrite tables_emits).
    by rewrite pending_keywords_emits, Hnone. }
  eexists (_ :: es1). split_and!.
  - unfold main. rewrite bind_unfold. cbn [get_world].
    rewrite (bind_ok _ _ _ _ _ Hblocks), (bind_ok _ _ _ _ _ Hload).
    rewrite bind_unfold. unfold print at 1, modify at 1. reflexivity.
  - by constructor.
  - apply list_elem_of_here.
Qed.


(** X5. When the pending table is absent, empty, or has no row with both
    fields, the run prints and exits with status 0 before anything is
    selected: no file is written or removed, no draw is consumed, the clock
    does not move. *)
Theorem no_pending_row_exits_cleanly (w : world) :
  tables w !! INPUT_CSV_FILE ≠ Some Unreadable →
  pending_keywords w = [] →
  ∃ es, main w = (Raise (SystemExit 0), emits es w) ∧
        Forall is_print es ∧
        Print "🛑 No new keywords to process in the input CSV. Script exiting." ∈ es.
Proof. apply main_no_pending. Qed.

Lemma no_pending_row_exits_cleanly_witness :
  ∃ es, main headless_test = (Raise (SystemExit 0), emits es headless_test) ∧
        Forall is_print es.
Proof.
  destruct (no_pending_row_exits_cleanly headless_test) as (es & Hrun & Hes & _).
  - by_evaluation.
  - by_evaluation.
  - by exists es.
Defined.

(** ** How a run can fail *)




(** X7. A pending row with a key besides [keyword] and [title] — a row
    with more cells than the header, or a third column — makes every run
    end with [ValueError] at the ledger commit, in [TEST] mode as in [LIVE]
    mode, after the loop over the batch has run. *)
Theorem surplus_key_aborts_the_commit (w : world) (r : row) :
  r ∈ pending_keywords w → ¬ plain r →
  ∃ w', main w = (Raise ValueError, w').
Proof.
  intros Hr Hplain.
  assert (Hsome : pending_keywords w ≠ []).
  { intros Hnil. rewrite Hnil in Hr. by apply elem_of_nil in Hr. }
  destruct (main_reaches_commit w Hsome)
    as (batch & processed & count & w3 & Hsub & _ & Hsubl & Htab & Hrun).
  cbv zeta in Hrun. rewrite Hrun.
  destruct (update_keywords_csv_run
              (filter (fun k => k ∉ processed) (pending_keywords w)) processed w3)
    as (es & Hupd & _).
  rewrite Hupd. rewrite decide_False; [by eexists|].
  intros [Hrem Hall]. apply Hplain.
  destruct (decide (r ∈ processed)) as [Hin|Hnin].
  - apply Forall_app in Hall as [_ Hproc]. by eapply Forall_forall in Hproc.
  - eapply Forall_forall in Hrem; [done|]. by apply list_elem_of_filter.
Qed.

Lemma surplus_key_aborts_the_commit_witness :
  ∃ w', main surplus_test = (Raise ValueError, w').
Proof.
  apply (surplus_key_aborts_the_commit surplus_test
           (Csv.to_dict ["keyword"; "title"] ["seo"; "Intro to SEO"; "extra"])).
  - by_evaluation.
  - by_evaluation.
Defined.
